(** * caminio-auth: the user model and the session hook

  A shallow embedding of [api/models/user.js] (the current [UserModel],
  with the nested [name] and [confirmation] sub-documents) and of
  [config/hooks/session.js], and the properties the specification
  states about them.

  Conventions of the embedding:
  - a JavaScript string is the list of its UTF-16 code units ([jsstring]);
    string literals of the source are written [str "..."];
  - a [Date] is its time value in milliseconds, a [Number] that the code
    only uses as an integer is a [Z];
  - a path of a document that may be missing is an [option];
  - node-style callbacks are continuations: [cb err result] is applied
    to the world in which the operation has completed. *)

From Stdlib Require Import ZArith NArith List String Ascii Bool Lia.
From Stdlib Require Import DecimalString.
From stdpp Require Import base decidable option list gmap strings.

Local Open Scope Z_scope.

(* ===================================================================== *)
(** ** JavaScript values                                                  *)
(* ===================================================================== *)

Module JS.

(** A string, as the sequence of its code units. *)
Definition jsstring := list N.

(** The code units of a source literal. *)
Definition str (s : string) : jsstring :=
  List.map N_of_ascii (list_ascii_of_string s).

(** The values the modelled code passes around. *)
Inductive value :=
| VUndefined
| VNull
| VBool (b : bool)
| VNum (n : Z)
| VNaN
| VStr (s : jsstring)
| VDate (t : Z).

(** ToBoolean. A [Date] is an object, hence always truthy. *)
Definition truthy (v : value) : bool :=
  match v with
  | VUndefined | VNull | VNaN => false
  | VBool b => b
  | VNum n => negb (n =? 0)
  | VStr s => match s with [] => false | _ => true end
  | VDate _ => true
  end.

(** ToString of an integral [Number]. *)
Definition numToString (n : Z) : jsstring :=
  str (NilEmpty.string_of_int (Z.to_int n)).

(** ToPrimitive without a hint: a [Date] converts to its string form
    ([Date.prototype.toString]; its text depends on the time zone of the
    host and is left to [dateToString]), a primitive to itself. *)
Definition toPrimitive (dateToString : Z -> jsstring) (v : value) : value :=
  match v with
  | VDate t => VStr (dateToString t)
  | _ => v
  end.

(** ToString of a primitive. *)
Definition toString (dateToString : Z -> jsstring) (v : value) : jsstring :=
  match v with
  | VUndefined => str "undefined"
  | VNull => str "null"
  | VBool true => str "true"
  | VBool false => str "false"
  | VNum n => numToString n
  | VNaN => str "NaN"
  | VStr s => s
  | VDate t => dateToString t
  end.

(** ToNumber of a primitive that is not a string; [None] is NaN. *)
Definition toNumber (v : value) : option Z :=
  match v with
  | VNull => Some 0
  | VBool b => Some (if b then 1 else 0)
  | VNum n => Some n
  | _ => None
  end.

Definition is_string (v : value) : bool :=
  match v with VStr _ => true | _ => false end.

(** The binary [+]: both operands are converted to primitives; when one
    of them is a string the result is the concatenation of their string
    forms, otherwise the sum of their numeric forms. *)
Definition js_add (dateToString : Z -> jsstring) (a b : value) : value :=
  let pa := toPrimitive dateToString a in
  let pb := toPrimitive dateToString b in
  if is_string pa || is_string pb
  then VStr (toString dateToString pa ++ toString dateToString pb)
  else match toNumber pa, toNumber pb with
       | Some x, Some y => VNum (x + y)
       | _, _ => VNaN
       end.

(** What a call either returns or throws. *)
Inductive completion (A : Type) :=
| Return (a : A)
| Throw (msg : string).
Arguments Return {A} a.
Arguments Throw {A} msg.

(** An optional string argument of a function: what the caller passed. *)
Inductive strarg :=
| AUndefined
| ANull
| AStr (s : jsstring).

#[global] Instance strarg_eq_dec : EqDecision strarg.
Proof. solve_decision. Defined.

Definition arg_truthy (a : strarg) : bool :=
  match a with
  | AStr (_ :: _) => true
  | _ => false
  end.

(** [a.length]: reading a property of [undefined] or [null] throws. *)
Definition arg_length (a : strarg) : completion Z :=
  match a with
  | AStr s => Return (Z.of_nat (length s))
  | _ => Throw "TypeError: Cannot read property 'length'"
  end.

(** [a.match(re)], reduced to whether its result is non-null; [search]
    is the engine's scan for a match of [re] in the string. *)
Definition arg_match (search : jsstring -> bool) (a : strarg) : completion bool :=
  match a with
  | AStr s => Return (search s)
  | _ => Throw "TypeError: Cannot read property 'match'"
  end.

#[global] Instance completion_bind : MBind completion :=
  fun A B f c =>
    match c with
    | Return a => f a
    | Throw msg => Throw msg
    end.

(** [a !== b] on these arguments: strings compare by content, and
    [undefined], [null] and a string are pairwise different. *)
Definition strict_neq (a b : strarg) : bool := bool_decide (a <> b).

End JS.
Export JS.

(* ===================================================================== *)
(** ** Regular expressions                                                *)
(* ===================================================================== *)

Module Regex.

(** The fragment of the regular-expression syntax the model uses:
    character ranges, concatenation, alternation and repetition. *)
Inductive regex :=
| Void
| Eps
| Range (lo hi : N)
| Cat (r1 r2 : regex)
| Alt (r1 r2 : regex)
| Star (r : regex).

(** [r+] *)
Definition Plus (r : regex) : regex := Cat r (Star r).

Definition in_range (lo hi c : N) : bool := ((lo <=? c) && (c <=? hi))%N.

(** The language of an expression. *)
Inductive Matches : regex -> jsstring -> Prop :=
| MEps : Matches Eps []
| MRange lo hi c : in_range lo hi c = true -> Matches (Range lo hi) [c]
| MCat r1 r2 s1 s2 :
    Matches r1 s1 -> Matches r2 s2 -> Matches (Cat r1 r2) (s1 ++ s2)
| MAltL r1 r2 s : Matches r1 s -> Matches (Alt r1 r2) s
| MAltR r1 r2 s : Matches r2 s -> Matches (Alt r1 r2) s
| MStarNil r : Matches (Star r) []
| MStarCons r s1 s2 :
    Matches r s1 -> Matches (Star r) s2 -> Matches (Star r) (s1 ++ s2).

Fixpoint nullable (r : regex) : bool :=
  match r with
  | Void => false
  | Eps => true
  | Range _ _ => false
  | Cat r1 r2 => nullable r1 && nullable r2
  | Alt r1 r2 => nullable r1 || nullable r2
  | Star _ => true
  end.

(** The derivative of [r] by the code unit [c]. *)
Fixpoint deriv (c : N) (r : regex) : regex :=
  match r with
  | Void => Void
  | Eps => Void
  | Range lo hi => if in_range lo hi c then Eps else Void
  | Cat r1 r2 =>
      if nullable r1
      then Alt (Cat (deriv c r1) r2) (deriv c r2)
      else Cat (deriv c r1) r2
  | Alt r1 r2 => Alt (deriv c r1) (deriv c r2)
  | Star r1 => Cat (deriv c r1) (Star r1)
  end.

(** Does some prefix of [s] match [r]? *)
Fixpoint match_prefix (r : regex) (s : jsstring) : bool :=
  nullable r ||
  match s with
  | [] => false
  | c :: s' => match_prefix (deriv c r) s'
  end.

(** [re.exec(s)] for a non-global expression without anchors: the match
    is attempted at index 0, then 1, ... up to the end of [s]; the
    result is non-null as soon as one attempt succeeds. *)
Fixpoint search (r : regex) (s : jsstring) : bool :=
  match_prefix r s ||
  match s with
  | [] => false
  | _ :: s' => search r s'
  end.

End Regex.
Export Regex.

(* ===================================================================== *)
(** ** The user model ([api/models/user.js])                              *)
(* ===================================================================== *)

Definition ObjectId := N.

(** [caminio.config]: the session timeout in milliseconds and the
    [superusers] key, which an environment may leave out. *)
Record Config := {
  session_timeout : Z;
  superusers : option (list jsstring)
}.

(** The [confirmation] sub-document. [expires] holds what the code
    assigns to the path. *)
Record Confirmation := {
  key : option jsstring;
  expires : option value;
  tries : option Z
}.

(** A user document: the paths of the schema the methods below read or
    write. [salt] and [encryptedPassword] may be missing on a document
    held in memory. *)
Record User := {
  _id : ObjectId;
  name_first : option jsstring;
  name_last : option jsstring;
  encryptedPassword : option jsstring;
  salt : option jsstring;
  email : jsstring;
  confirmation : Confirmation;
  role : Z;
  lastLoginAt : option Z;
  lastRequestAt : option Z
}.

Definition set_lastRequestAt (t : option Z) (u : User) : User :=
  {| _id := _id u; name_first := name_first u; name_last := name_last u;
     encryptedPassword := encryptedPassword u; salt := salt u;
     email := email u; confirmation := confirmation u; role := role u;
     lastLoginAt := lastLoginAt u; lastRequestAt := t |}.

Definition set_confirmation (c : Confirmation) (u : User) : User :=
  {| _id := _id u; name_first := name_first u; name_last := name_last u;
     encryptedPassword := encryptedPassword u; salt := salt u;
     email := email u; confirmation := c; role := role u;
     lastLoginAt := lastLoginAt u; lastRequestAt := lastRequestAt u |}.

(** A [Domain] document, as far as [isAdmin] looks at it. *)
Record Domain := {
  domain_id : ObjectId;
  owner : ObjectId
}.

(** The optional argument of [isAdmin]. *)
Inductive groupOrDomain :=
| NoContext
| OfDomain (d : Domain)
| NotADomain.

(** [/[A-Z]+[a-z]+[0-9]+/] *)
Definition chr (a : ascii) : N := N_of_ascii a.
Definition upper : regex := Range (chr "A") (chr "Z").
Definition lower : regex := Range (chr "a") (chr "z").
Definition digit : regex := Range (chr "0") (chr "9").
Definition password_pattern : regex :=
  Cat (Plus upper) (Cat (Plus lower) (Plus digit)).

(** [checkPassword(pwd, confirm_pwd)] *)
Definition checkPassword (pwd confirm_pwd : strarg) : completion (list value) :=
  too_short ← (if negb (arg_truthy pwd) then Return true
               else len ← arg_length pwd; Return (len <? 6));
  if (too_short : bool) then
    Return [VBool false; VStr (str "too_short")]
  else if arg_truthy confirm_pwd && strict_neq confirm_pwd pwd then
    Return [VBool false; VStr (str "confirmation_missmatch")]
  else
    found ← arg_match (search password_pattern) pwd;
    if negb found then
      Return [VBool false; VStr (str "requirements_not_met")]
    else
      Return [VBool true].

(** [schema.publicAttributes] *)
Definition publicAttributes : list string :=
  [ "name.first"; "name.last"; "name.full"; "email";
    "lastLoginAt"; "lastRequestAt"; "superuser"; "admin" ]%string.

(** [Array.prototype.indexOf] on an array of strings. *)
Fixpoint indexOf_from (i : Z) (l : list jsstring) (x : jsstring) : Z :=
  match l with
  | [] => -1
  | y :: l' => if bool_decide (y = x) then i else indexOf_from (i + 1) l' x
  end.

Definition indexOf (l : list jsstring) (x : jsstring) : Z := indexOf_from 0 l x.

(** [isSuperUser()]: the value of
    [caminio.config.superusers && caminio.config.superusers.indexOf(this.email) >= 0]. *)
Definition isSuperUser (cfg : Config) (u : User) : value :=
  match superusers cfg with
  | None => VUndefined
  | Some l => VBool (0 <=? indexOf l (email u))
  end.

(** [isAdmin(groupOrDomain)] *)
Definition isAdmin (cfg : Config) (u : User) (ctx : groupOrDomain) : bool :=
  if truthy (isSuperUser cfg u) then true
  else match ctx with
       | OfDomain d => bool_decide (owner d = _id u)
       | _ => role u <=? 5
       end.

(** The [admin] virtual. *)
Definition admin (cfg : Config) (u : User) : bool :=
  if truthy (isSuperUser cfg u) then true
  else role u <=? 5.

(** The [superuser] virtual. *)
Definition superuser (cfg : Config) (u : User) : value := isSuperUser cfg u.

(** *** Credentials

    [crypto.createHmac(alg, key).update(data).digest('hex')]: the object
    collects the key and the data; the digest function of the platform is
    [hmacHex]. Creating the object with a missing key throws. *)
Record Hmac := {
  hmac_alg : jsstring;
  hmac_key : jsstring;
  hmac_data : jsstring
}.

Definition createHmac (alg : jsstring) (k : option jsstring) : completion Hmac :=
  match k with
  | Some k => Return {| hmac_alg := alg; hmac_key := k; hmac_data := [] |}
  | None => Throw "TypeError: key must be a string or a buffer"
  end.

Definition hmac_update (h : Hmac) (data : jsstring) : Hmac :=
  {| hmac_alg := hmac_alg h; hmac_key := hmac_key h;
     hmac_data := hmac_data h ++ data |}.

Definition hmac_digest (hmacHex : jsstring -> jsstring -> jsstring -> jsstring)
    (h : Hmac) : jsstring :=
  hmacHex (hmac_alg h) (hmac_key h) (hmac_data h).

(** [encryptPassword(password)] *)
Definition encryptPassword (hmacHex : jsstring -> jsstring -> jsstring -> jsstring)
    (u : User) (password : jsstring) : completion jsstring :=
  h ← createHmac (str "sha256WithRSAEncryption") (salt u);
  Return (hmac_digest hmacHex (hmac_update h password)).

(** [authenticate(plainTextPassword)]: [===] against the stored path,
    which is a string or missing. *)
Definition authenticate (hmacHex : jsstring -> jsstring -> jsstring -> jsstring)
    (u : User) (plainTextPassword : jsstring) : completion bool :=
  digest ← encryptPassword hmacHex u plainTextPassword;
  Return (bool_decide (Some digest = encryptedPassword u)).

(** [generateConfirmationKey()], on the document [u] at the instant [now]
    ([new Date()]); [token] is what [caminioUtil.uid(8)] returned. The
    counter is a [Number] holding an integer; its [+= 1] is the integer
    successor as long as the value stays within -2^53 .. 2^53, the range
    in which a [Number] counts exactly. *)
Definition generateConfirmationKey (dateToString : Z -> jsstring)
    (token : jsstring) (now : Z) (u : User) : User :=
  let c := confirmation u in
  let c1 := {| key := Some token; expires := expires c; tries := tries c |} in
  let c2 := {| key := key c1;
               expires := Some (js_add dateToString (VDate now) (VNum (1800 * 1000)));
               tries := tries c1 |} in
  let c3 := {| key := key c2; expires := expires c2;
               tries := Some (match tries c2 with
                              | Some n => if n =? 0 then 0 else n
                              | None => 0
                              end) |} in
  let c4 := {| key := key c3; expires := expires c3;
               tries := option_map (fun n => n + 1) (tries c3) |} in
  set_confirmation c4 u.

(* ===================================================================== *)
(** ** The session hook ([config/hooks/session.js])                       *)
(* ===================================================================== *)

Inductive StoreError :=
| MongoError (msg : string).

(** What the hook asks of the store. *)
Inductive event :=
| EvFindOne (id : ObjectId)
| EvUpdate (id : ObjectId) (lastRequestAt : Z).

(** The world the hook runs in: the user collection, the requests sent
    to the store so far, whether the n-th request to the store fails,
    and the clock, given by the instant its n-th reading shows. *)
Record World := {
  users : gmap ObjectId User;
  trace : list event;
  faults : nat -> option StoreError;
  clock : nat -> Z;
  reads : nat
}.

Definition log (e : event) (w : World) : World :=
  {| users := users w; trace := trace w ++ [e]; faults := faults w;
     clock := clock w; reads := reads w |}.

Definition set_users (m : gmap ObjectId User) (w : World) : World :=
  {| users := m; trace := trace w; faults := faults w;
     clock := clock w; reads := reads w |}.

(** [new Date()] *)
Definition newDate (w : World) : Z * World :=
  (clock w (reads w),
   {| users := users w; trace := trace w; faults := faults w;
      clock := clock w; reads := S (reads w) |}).

(** [User.findOne({ _id: id }).populate('camDomains').exec(cb)] *)
Definition findOne {R} (id : ObjectId)
    (cb : option StoreError -> option User -> World -> R) (w : World) : R :=
  match faults w (length (trace w)) with
  | Some e => cb (Some e) None (log (EvFindOne id) w)
  | None => cb None (users w !! id) (log (EvFindOne id) w)
  end.

(** [user.update({ lastRequestAt: t }, cb)]: the store sets the path on
    the document with the id of [u]; the document [u] in memory stays as
    it is. *)
Definition update {R} (u : User) (t : Z)
    (cb : option StoreError -> World -> R) (w : World) : R :=
  match faults w (length (trace w)) with
  | Some e => cb (Some e) (log (EvUpdate (_id u) t) w)
  | None =>
      cb None (set_users (alter (set_lastRequestAt (Some t)) (_id u) (users w))
                 (log (EvUpdate (_id u) t) w))
  end.

(** [serialize(user, done)] *)
Definition serialize {R} (u : User)
    (done : option StoreError -> ObjectId -> World -> R) (w : World) : R :=
  done None (_id u) w.

(** [deserialize(id, done)] *)
Definition deserialize {R} (cfg : Config) (id : ObjectId)
    (done : option StoreError -> option User -> World -> R) (w : World) : R :=
  findOne id (fun err user w =>
    match err with
    | Some e => done (Some e) None w
    | None =>
        match user with
        | Some u =>
            match lastRequestAt u with
            | None => done None None w
            | Some t =>
                let '(now, w1) := newDate w in
                if t <? now - session_timeout cfg then done None None w1
                else
                  let '(now', w2) := newDate w1 in
                  update u now' (fun err => done err (Some u)) w2
            end
        | None => done err user w
        end
    end) w.

(** The continuation that hands the arguments of [done] back. *)
Definition resolved {A} (err : option StoreError) (a : A) (w : World) :
    option StoreError * A * World :=
  (err, a, w).

(* ===================================================================== *)
(** ** The public projection                                              *)
(* ===================================================================== *)

(** Modelled from the spec: the serializer that applies
    [schema.publicAttributes] is not part of the model file; per the
    specification it exposes, of a document, the allow-listed attributes
    and nothing else. [get] reads a path (or virtual) of the document and
    is [None] where the document has no such path. *)
Definition publicProjection (get : string -> option value) : gmap string value :=
  list_to_map (omap (fun k => pair k <$> get k) publicAttributes).

(** The requirement in the words of the specification, for comparison
    with the code: at least one uppercase letter, one lowercase letter
    and one digit, in that relative order, that is at positions
    [i < j < k] of the password. *)
Definition spec_relative_order (s : jsstring) : Prop :=
  exists (i j k : nat) (a b c : N),
    (i < j)%nat /\ (j < k)%nat /\
    s !! i = Some a /\ s !! j = Some b /\ s !! k = Some c /\
    in_range (chr "A") (chr "Z") a = true /\
    in_range (chr "a") (chr "z") b = true /\
    in_range (chr "0") (chr "9") c = true.

(** Not stale, in the words of the specification, for comparison with
    the code: the time since [lastRequestAt] does not exceed the
    timeout, and a missing [lastRequestAt] counts as never stale. *)
Definition spec_not_stale (cfg : Config) (now : Z) (u : User) : Prop :=
  match lastRequestAt u with
  | None => True
  | Some t => now - t <= session_timeout cfg
  end.

(** *** Vocabulary of the statements *)

(** A run: one or more code units of one range. *)
Definition run (lo hi : N) (m : jsstring) : Prop :=
  m <> [] /\ Forall (fun c => in_range lo hi c = true) m.

(** [s] has a run of uppercase letters, directly followed by a run of
    lowercase letters, directly followed by a run of digits. *)
Definition has_upper_lower_digit_run (s : jsstring) : Prop :=
  exists pre u l d post,
    s = pre ++ (u ++ l ++ d) ++ post /\
    run (chr "A") (chr "Z") u /\ run (chr "a") (chr "z") l /\
    run (chr "0") (chr "9") d.

(** The confirmation does not stop [checkPassword]: it is missing or
    empty, or it is the password. *)
Definition confirmation_passes (pwd confirm_pwd : strarg) : Prop :=
  arg_truthy confirm_pwd = false \/ confirm_pwd = pwd.

(** The results of [checkPassword]. *)
Definition too_short : list value := [VBool false; VStr (str "too_short")].
Definition confirmation_missmatch : list value :=
  [VBool false; VStr (str "confirmation_missmatch")].
Definition requirements_not_met : list value :=
  [VBool false; VStr (str "requirements_not_met")].
Definition password_ok : list value := [VBool true].

(** The world after the lookup of [deserialize], and after the lookup
    and the two readings of the clock that precede the write. *)
Definition after_lookup (id : ObjectId) (w : World) : World :=
  log (EvFindOne id) w.

Definition before_write (id : ObjectId) (w : World) : World :=
  (newDate (newDate (after_lookup id w)).2).2.

(** *** Sample data *)

(** A stand-in for the digest of the platform that keeps its inputs
    readable. *)
Definition sample_hmac (alg k data : jsstring) : jsstring :=
  k ++ str "|" ++ data.

Definition sample_dateToString (t : Z) : jsstring :=
  str "Tue Nov 03 2026 06:42:00 GMT+0000 (UTC)".

Definition henry : User :=
  {| _id := 7%N;
     name_first := Some (str "Henry"); name_last := Some (str "King");
     encryptedPassword := Some (str "k1|Secret1");
     salt := Some (str "k1");
     email := str "henry@example.com";
     confirmation := {| key := None; expires := None; tries := None |};
     role := 50;
     lastLoginAt := Some 90000;
     lastRequestAt := None |}.

(** [henry] after a request at the instant [t]. *)
Definition henry_seen (t : Z) : User := set_lastRequestAt (Some t) henry.

Definition sample_config : Config :=
  {| session_timeout := 5000; superusers := Some [str "root@example.com"] |}.

(** A store holding the one document [u]; the clock shows 100000 at its
    first reading and advances by one millisecond per reading. *)
Definition world_with (u : User) (f : nat -> option StoreError) : World :=
  {| users := {[ _id u := u ]}; trace := []; faults := f;
     clock := fun n => 100000 + Z.of_nat n; reads := 0 |}.

Definition no_fault (n : nat) : option StoreError := None.

Definition fault_at (k : nat) (e : StoreError) (n : nat) : option StoreError :=
  if Nat.eqb n k then Some e else None.

Definition company : Domain := {| domain_id := 3%N; owner := 7%N |}.

(* ===================================================================== *)
(** ** The rest of the user model                                         *)
(* ===================================================================== *)

Definition set_name (first last : option jsstring) (u : User) : User :=
  {| _id := _id u; name_first := first; name_last := last;
     encryptedPassword := encryptedPassword u; salt := salt u;
     email := email u; confirmation := confirmation u; role := role u;
     lastLoginAt := lastLoginAt u; lastRequestAt := lastRequestAt u |}.

Definition set_salt (k : option jsstring) (u : User) : User :=
  {| _id := _id u; name_first := name_first u; name_last := name_last u;
     encryptedPassword := encryptedPassword u; salt := k;
     email := email u; confirmation := confirmation u; role := role u;
     lastLoginAt := lastLoginAt u; lastRequestAt := lastRequestAt u |}.

Definition set_encryptedPassword (h : option jsstring) (u : User) : User :=
  {| _id := _id u; name_first := name_first u; name_last := name_last u;
     encryptedPassword := h; salt := salt u;
     email := email u; confirmation := confirmation u; role := role u;
     lastLoginAt := lastLoginAt u; lastRequestAt := lastRequestAt u |}.

(** ToBoolean of a string path that may be missing. *)
Definition path_truthy (o : option jsstring) : bool :=
  match o with
  | Some (_ :: _) => true
  | _ => false
  end.

(** The string of a path known to be truthy. *)
Definition path_string (o : option jsstring) : jsstring := default [] o.

(** [getUserFullName()], the getter of the [name.full] virtual. *)
Definition getUserFullName (u : User) : jsstring :=
  if path_truthy (name_first u) && path_truthy (name_last u) then
    path_string (name_first u) ++ str " " ++ path_string (name_last u)
  else if path_truthy (name_first u) then path_string (name_first u)
  else if path_truthy (name_last u) then path_string (name_last u)
  else email u.

(** [s.split(sep)] for a separator of one code unit: the pieces of [s]
    between the occurrences of [sep], at least one piece. *)
Fixpoint split_on (sep : N) (s : jsstring) : list jsstring :=
  match s with
  | [] => [[]]
  | c :: s' =>
      if (c =? sep)%N then [] :: split_on sep s'
      else match split_on sep s' with
           | piece :: pieces => (c :: piece) :: pieces
           | [] => [[c]]
           end
  end.

(** ToBoolean of an array: an object, hence true. *)
Definition array_truthy {A} (a : list A) : bool := true.

(** The setter of the [name.full] virtual. Indexing an array past its
    end gives [undefined], which leaves the path missing. *)
Definition set_fullName (name : jsstring) (u : User) : User :=
  if array_truthy (split_on (chr " ") name) then
    let u1 := set_name (split_on (chr " ") name !! 0%nat) (name_last u) u in
    set_name (name_first u1) (split_on (chr " ") name !! 1%nat) u1
  else
    set_name (Some name) (name_last u) u.

(** [/@/] *)
Definition at_sign : regex := Range (chr "@") (chr "@").

(** [EmailValidator(val)], reduced to whether its result is truthy. *)
Definition EmailValidator (val : strarg) : completion bool :=
  if negb (arg_truthy val) then Return false
  else arg_match (search at_sign) val.

(** A user document in memory: the paths of the schema and the
    [_password] property, which is not a path and is not stored. *)
Record Instance := {
  doc : User;
  _password : option jsstring
}.

(** [generateSalt()]: [rounded] is the integer
    [Math.round(new Date().valueOf() * Math.random())], which [+ ''] turns
    into its decimal text. *)
Definition generateSalt (rounded : Z) : jsstring := numToString rounded.

(** The setter of the [password] virtual. *)
Definition set_password (hmacHex : jsstring -> jsstring -> jsstring -> jsstring)
    (rounded : Z) (password : jsstring) (i : Instance) : completion Instance :=
  let i1 := {| doc := doc i; _password := Some password |} in
  let i2 := {| doc := set_salt (Some (generateSalt rounded)) (doc i1);
               _password := _password i1 |} in
  digest ← encryptPassword hmacHex (doc i2) password;
  Return {| doc := set_encryptedPassword (Some digest) (doc i2);
            _password := _password i2 |}.

(** The getter of the [password] virtual. *)
Definition get_password (i : Instance) : option jsstring := _password i.

(** A run of calls of [generateConfirmationKey], each with the token
    and the instant it saw. *)
Definition generateConfirmationKeys (dateToString : Z -> jsstring)
    (calls : list (jsstring * Z)) (u : User) : User :=
  foldl (fun u call => generateConfirmationKey dateToString call.1 call.2 u) u calls.

(** A document without the [lastRequestAt] path. *)
Definition but_lastRequestAt (u : User) : User := set_lastRequestAt None u.

(** Two more users: one listed in [sample_config] as superuser, one
    with an administrative role. Neither owns [company]. *)
Definition root_user : User :=
  {| _id := 9%N; name_first := None; name_last := None;
     encryptedPassword := None; salt := None;
     email := str "root@example.com";
     confirmation := {| key := None; expires := None; tries := None |};
     role := 100; lastLoginAt := None; lastRequestAt := None |}.

Definition ann : User :=
  {| _id := 11%N; name_first := Some (str "Ann"); name_last := None;
     encryptedPassword := None; salt := None;
     email := str "ann@example.com";
     confirmation := {| key := None; expires := None; tries := None |};
     role := 3; lastLoginAt := None; lastRequestAt := None |}.

(** No code unit of [s] is a space. *)
Definition spaceless (s : jsstring) : Prop := Forall (fun c => c <> chr " ") s.

(* ===================================================================== *)
(** ** The matcher decides the language                                   *)
(* ===================================================================== *)

Module RegexFacts.

Lemma nullable_sound r : nullable r = true -> Matches r [].
Proof.
  induction r as [| | lo hi | r1 IH1 r2 IH2 | r1 IH1 r2 IH2 | r IH]; simpl; intros Hn.
  - discriminate.
  - constructor.
  - discriminate.
  - apply andb_true_iff in Hn as [H1 H2].
    change (@nil N) with (@nil N ++ []). constructor; auto.
  - apply orb_true_iff in Hn as [H | H]; [apply MAltL | apply MAltR]; auto.
  - constructor.
Qed.

Lemma nullable_complete r s : Matches r s -> s = [] -> nullable r = true.
Proof.
  induction 1 as [ | lo hi c Hc | r1 r2 s1 s2 _ IH1 _ IH2 | r1 r2 s _ IH
                 | r1 r2 s _ IH | r | r s1 s2 _ _ _ _ ]; simpl; intros He;
    try reflexivity; try discriminate.
  - apply app_eq_nil in He as [-> ->]. rewrite IH1, IH2; auto.
  - rewrite IH; auto.
  - rewrite IH; auto. apply orb_true_r.
Qed.

Lemma nullable_spec r : nullable r = true <-> Matches r [].
Proof.
  split; [apply nullable_sound | intros H; eapply nullable_complete; eauto].
Qed.

Lemma deriv_sound c r : forall s, Matches (deriv c r) s -> Matches r (c :: s).
Proof.
  induction r as [| | lo hi | r1 IH1 r2 IH2 | r1 IH1 r2 IH2 | r IH];
    simpl; intros s H.
  - inversion H.
  - inversion H.
  - destruct (in_range lo hi c) eqn:E; inversion H; subst. now constructor.
  - assert (Hcat : forall t, Matches (Cat (deriv c r1) r2) t -> Matches (Cat r1 r2) (c :: t)).
    { intros t Ht. inversion Ht; subst.
      change (c :: s1 ++ s2) with ((c :: s1) ++ s2). constructor; auto. }
    destruct (nullable r1) eqn:E; [| auto].
    inversion H; subst; [auto |].
    change (c :: s) with ([] ++ c :: s). constructor; auto.
    now apply nullable_sound.
  - inversion H; subst; [apply MAltL | apply MAltR]; auto.
  - inversion H; subst.
    change (c :: s1 ++ s2) with ((c :: s1) ++ s2). constructor; auto.
Qed.

Lemma deriv_complete c r s0 :
  Matches r s0 -> forall s, s0 = c :: s -> Matches (deriv c r) s.
Proof.
  induction 1 as [ | lo hi d Hd | r1 r2 s1 s2 H1 IH1 H2 IH2 | r1 r2 s0 H IH
                 | r1 r2 s0 H IH | r | r s1 s2 H1 IH1 H2 IH2 ];
    intros s He; simpl.
  - discriminate.
  - injection He as -> <-. rewrite Hd. constructor.
  - destruct s1 as [| a s1'].
    + simpl in He. subst s2.
      rewrite (nullable_complete _ _ H1 eq_refl). apply MAltR. auto.
    + injection He as -> <-.
      destruct (nullable r1); [apply MAltL |]; constructor; auto.
  - apply MAltL; auto.
  - apply MAltR; auto.
  - discriminate.
  - destruct s1 as [| a s1'].
    + simpl in He. auto.
    + injection He as -> <-. constructor; auto.
Qed.

Lemma deriv_spec c r s : Matches (deriv c r) s <-> Matches r (c :: s).
Proof.
  split; [apply deriv_sound | intros H; eapply deriv_complete; eauto].
Qed.

Lemma match_prefix_spec s : forall r,
  match_prefix r s = true <-> exists p q, s = p ++ q /\ Matches r p.
Proof.
  induction s as [| c s IH]; intros r; simpl.
  - rewrite orb_false_r, nullable_spec. split.
    + intros H. exists [], []. auto.
    + intros (p & q & He & H). symmetry in He.
      apply app_eq_nil in He as [-> _]. exact H.
  - rewrite orb_true_iff, nullable_spec, IH. split.
    + intros [H | (p & q & -> & H)].
      * exists [], (c :: s). auto.
      * exists (c :: p), q. split; [reflexivity | now apply deriv_spec].
    + intros (p & q & He & H). destruct p as [| a p]; [left; exact H |].
      injection He as <- ->. right. exists p, q.
      split; [reflexivity | now apply deriv_spec].
Qed.

Lemma search_spec r s :
  search r s = true <->
  exists pre m post, s = pre ++ m ++ post /\ Matches r m.
Proof.
  induction s as [| c s IH].
  - simpl. rewrite !orb_false_r, nullable_spec. split.
    + intros H. exists [], [], []. auto.
    + intros (pre & m & post & He & H). symmetry in He.
      apply app_eq_nil in He as [_ He]. apply app_eq_nil in He as [-> _].
      exact H.
  - change (search r (c :: s)) with (match_prefix r (c :: s) || search r s).
    rewrite orb_true_iff, match_prefix_spec, IH. split.
    + intros [(p & q & -> & H) | (pre & m & post & -> & H)].
      * exists [], p, q. auto.
      * exists (c :: pre), m, post. auto.
    + intros (pre & m & post & He & H). destruct pre as [| a pre].
      * left. exists m, post. auto.
      * injection He as <- ->. right. exists pre, m, post. auto.
Qed.

Lemma star_range lo hi m :
  Matches (Star (Range lo hi)) m <-> Forall (fun c => in_range lo hi c = true) m.
Proof.
  split.
  - intros H. remember (Star (Range lo hi)) as r eqn:Er.
    induction H as [ | | | | | r' | r' s1 s2 H1 _ H2 IH2 ]; try discriminate.
    + constructor.
    + injection Er as ->. inversion H1; subst. simpl. constructor; auto.
  - induction 1 as [| c m Hc _ IH].
    + constructor.
    + change (c :: m) with ([c] ++ m). constructor; [now constructor | exact IH].
Qed.

Lemma plus_range lo hi m : Matches (Plus (Range lo hi)) m <-> run lo hi m.
Proof.
  unfold Plus, run. split.
  - intros H. inversion H as [ | | r1 r2 s1 s2 H1 H2 | | | | ]; subst.
    inversion H1; subst. apply star_range in H2. simpl.
    split; [discriminate | constructor; auto].
  - intros [Hne HF]. destruct m as [| c m]; [congruence |].
    inversion HF; subst. change (c :: m) with ([c] ++ m).
    constructor; [now constructor | now apply star_range].
Qed.

Lemma password_pattern_spec m :
  Matches password_pattern m <->
  exists u l d, m = u ++ l ++ d /\
    run (chr "A") (chr "Z") u /\ run (chr "a") (chr "z") l /\
    run (chr "0") (chr "9") d.
Proof.
  unfold password_pattern, upper, lower, digit. split.
  - intros H. inversion H as [ | | r1 r2 u s2 Hu H2 | | | | ]; subst.
    inversion H2 as [ | | r1 r2 l d Hl Hd | | | | ]; subst.
    exists u, l, d. rewrite <- !plus_range. auto.
  - intros (u & l & d & -> & Hu & Hl & Hd).
    constructor; [| constructor]; now apply plus_range.
Qed.

End RegexFacts.

(* ===================================================================== *)
(** ** The password policy                                                *)
(* ===================================================================== *)

Lemma search_password_pattern s :
  search password_pattern s = true <-> has_upper_lower_digit_run s.
Proof.
  rewrite RegexFacts.search_spec. unfold has_upper_lower_digit_run. split.
  - intros (pre & m & post & -> & Hm).
    apply RegexFacts.password_pattern_spec in Hm as (u & l & d & -> & Hu & Hl & Hd).
    exists pre, u, l, d, post. auto.
  - intros (pre & u & l & d & post & -> & Hu & Hl & Hd).
    exists pre, (u ++ l ++ d), post. split; [reflexivity |].
    apply RegexFacts.password_pattern_spec. exists u, l, d. auto.
Qed.

Lemma checkPassword_short s c :
  (length s < 6)%nat -> checkPassword (AStr s) c = Return too_short.
Proof.
  intros Hlen. unfold checkPassword. destruct s as [| a s]; [reflexivity |].
  cbn [arg_truthy negb arg_length mbind completion_bind].
  destruct (Z.ltb_spec (Z.of_nat (length (a :: s))) 6) as [_ | Hge]; [reflexivity | lia].
Qed.

Lemma checkPassword_long s c :
  (6 <= length s)%nat ->
  checkPassword (AStr s) c =
    if arg_truthy c && strict_neq c (AStr s) then Return confirmation_missmatch
    else if search password_pattern s then Return password_ok
         else Return requirements_not_met.
Proof.
  intros Hlen. unfold checkPassword.
  destruct s as [| a s]; [simpl in Hlen; lia |].
  cbn [arg_truthy negb arg_length mbind completion_bind].
  destruct (Z.ltb_spec (Z.of_nat (length (a :: s))) 6) as [Hlt | _]; [lia |].
  destruct (arg_truthy c && strict_neq c (AStr (a :: s))); [reflexivity |].
  cbn [arg_match mbind completion_bind].
  destruct (search password_pattern (a :: s)); reflexivity.
Qed.

Lemma confirmation_passes_false pwd c :
  confirmation_passes pwd c -> arg_truthy c && strict_neq c pwd = false.
Proof.
  intros [Hf | ->].
  - now rewrite Hf.
  - unfold strict_neq. rewrite bool_decide_eq_false_2 by tauto. apply andb_false_r.
Qed.

(** C5 (as amended). The length is checked before the confirmation: a
    password of fewer than 6 code units is [too_short] whatever the
    confirmation argument is; a password of at least 6 code units with a
    non-empty confirmation string different from it yields the tag the
    code spells [confirmation_missmatch]. *)
Theorem checkPassword_length_before_confirmation (s : jsstring) :
  (forall c : strarg,
      (length s < 6)%nat -> checkPassword (AStr s) c = Return too_short) /\
  (forall c : jsstring,
      (6 <= length s)%nat -> c <> [] -> c <> s ->
      checkPassword (AStr s) (AStr c) = Return confirmation_missmatch).
Proof.
  split.
  - intros c Hlen. now apply checkPassword_short.
  - intros c Hlen Hne Hdiff. rewrite checkPassword_long by exact Hlen.
    destruct c as [| a c]; [congruence |]. cbn [arg_truthy andb].
    unfold strict_neq. rewrite bool_decide_eq_true_2; [reflexivity | congruence].
Qed.

(** C6 (as amended). For a password of at least 6 code units that the
    confirmation does not stop, [checkPassword] succeeds exactly when the
    password contains one or more letters of [A-Z] directly followed by
    one or more letters of [a-z] directly followed by one or more digits;
    otherwise it fails with [requirements_not_met]. *)
Theorem checkPassword_requirements (s : jsstring) (c : strarg) :
  (6 <= length s)%nat ->
  confirmation_passes (AStr s) c ->
  (checkPassword (AStr s) c = Return password_ok <-> has_upper_lower_digit_run s) /\
  (~ has_upper_lower_digit_run s ->
   checkPassword (AStr s) c = Return requirements_not_met).
Proof.
  intros Hlen Hc. rewrite checkPassword_long by exact Hlen.
  rewrite (confirmation_passes_false _ _ Hc).
  rewrite <- search_password_pattern.
  destruct (search password_pattern s).
  - split; [tauto | intros H; exfalso; apply H; reflexivity].
  - split; [split; discriminate | reflexivity].
Qed.

(** C10. [checkPassword] returns on a missing password: for [null],
    [undefined] and the empty string it returns the [too_short] failure,
    with any confirmation argument, and does not throw. *)
Theorem checkPassword_absent (c : strarg) :
  checkPassword AUndefined c = Return too_short /\
  checkPassword ANull c = Return too_short /\
  checkPassword (AStr []) c = Return too_short.
Proof. repeat split. Qed.

(** The claim of C5 as the specification words it fails on the code: an
    empty confirmation string is given and differs from the password,
    yet the check lets the password through; and where the code does
    report the confirmation, its tag is not [confirmation_mismatch]. *)
Lemma checkPassword_confirmation_counterexample :
  (6 <= length (str "Abcdef1"))%nat /\
  str "" <> str "Abcdef1" /\
  checkPassword (AStr (str "Abcdef1")) (AStr (str "")) = Return password_ok /\
  checkPassword (AStr (str "abcdefgh")) (AStr (str "different"))
    <> Return [VBool false; VStr (str "confirmation_mismatch")].
Proof.
  split; [vm_compute; lia |]. split; [discriminate |].
  split; [reflexivity |]. vm_compute. discriminate.
Qed.

Lemma checkPassword_length_before_confirmation_witness :
  checkPassword (AStr (str "short")) (AStr (str "different")) = Return too_short /\
  checkPassword (AStr (str "abcdefgh")) (AStr (str "different"))
    = Return confirmation_missmatch.
Proof.
  split.
  - apply (proj1 (checkPassword_length_before_confirmation (str "short"))).
    vm_compute. lia.
  - apply (proj2 (checkPassword_length_before_confirmation (str "abcdefgh"))).
    + vm_compute. lia.
    + discriminate.
    + discriminate.
Defined.

(** The claim of C6 as the specification words it fails on the code:
    [A-b-1-] has an uppercase letter, a lowercase letter and a digit in
    that relative order, is long enough and comes without confirmation,
    and is rejected with [requirements_not_met]. *)
Lemma checkPassword_relative_order_counterexample :
  (6 <= length (str "A-b-1-"))%nat /\
  confirmation_passes (AStr (str "A-b-1-")) AUndefined /\
  spec_relative_order (str "A-b-1-") /\
  checkPassword (AStr (str "A-b-1-")) AUndefined = Return requirements_not_met /\
  ~ (checkPassword (AStr (str "A-b-1-")) AUndefined = Return password_ok
     <-> spec_relative_order (str "A-b-1-")).
Proof.
  assert (Ho : spec_relative_order (str "A-b-1-")).
  { exists 0%nat, 2%nat, 4%nat, (chr "A"), (chr "b"), (chr "1").
    repeat split; solve [lia | reflexivity]. }
  split; [vm_compute; lia |]. split; [left; reflexivity |].
  split; [exact Ho |]. split; [reflexivity |].
  intros [_ H]. specialize (H Ho). discriminate H.
Qed.

Lemma checkPassword_requirements_witness :
  (checkPassword (AStr (str "Abcdef1")) AUndefined = Return password_ok
   <-> has_upper_lower_digit_run (str "Abcdef1")) /\
  (~ has_upper_lower_digit_run (str "Abcdef1") ->
   checkPassword (AStr (str "Abcdef1")) AUndefined = Return requirements_not_met).
Proof.
  apply (checkPassword_requirements (str "Abcdef1") AUndefined).
  - vm_compute. lia.
  - left. reflexivity.
Defined.

(* ===================================================================== *)
(** ** Credentials                                                        *)
(* ===================================================================== *)

Lemma encryptPassword_salt hmacHex u p :
  encryptPassword hmacHex u p =
    match salt u with
    | Some k => Return (hmacHex (str "sha256WithRSAEncryption") k p)
    | None => Throw "TypeError: key must be a string or a buffer"
    end.
Proof. unfold encryptPassword. destruct (salt u); reflexivity. Qed.

(** C3. [authenticate] returns [true] exactly when the digest of the
    plaintext under the salt of the document is the stored
    [encryptedPassword]; and the digest is determined by the plaintext
    and the salt: documents with the same salt get the same digest for
    the same plaintext. *)
Theorem authenticate_iff_digest_matches
    (hmacHex : jsstring -> jsstring -> jsstring -> jsstring)
    (u : User) (plaintext : jsstring) :
  (authenticate hmacHex u plaintext = Return true <->
   exists digest, encryptPassword hmacHex u plaintext = Return digest /\
                  encryptedPassword u = Some digest) /\
  (forall (u' : User) (plaintext' : jsstring),
      salt u' = salt u -> plaintext' = plaintext ->
      encryptPassword hmacHex u' plaintext' = encryptPassword hmacHex u plaintext).
Proof.
  split.
  - unfold authenticate. rewrite encryptPassword_salt.
    destruct (salt u) as [k |]; cbn [mbind completion_bind].
    + split.
      * intros H. injection H as H. apply bool_decide_eq_true_1 in H.
        eexists. split; [reflexivity | congruence].
      * intros (digest & Hd & He). injection Hd as <-.
        rewrite bool_decide_eq_true_2; [reflexivity | congruence].
    + split; [discriminate | intros (digest & Hd & _); discriminate].
  - intros u' p' Hs ->. rewrite !encryptPassword_salt, Hs. reflexivity.
Qed.

Lemma authenticate_iff_digest_matches_witness :
  authenticate sample_hmac henry (str "Secret1") = Return true /\
  encryptPassword sample_hmac (henry_seen 99000) (str "Secret1")
    = encryptPassword sample_hmac henry (str "Secret1").
Proof.
  destruct (authenticate_iff_digest_matches sample_hmac henry (str "Secret1"))
    as [Hauth Hdet].
  split.
  - apply Hauth. exists (str "k1|Secret1"). split; reflexivity.
  - apply Hdet; reflexivity.
Defined.

(** C7 (the code at work). [generateConfirmationKey] stores the token
    and counts the try, but what it assigns to [confirmation.expires] is
    the text of the current date with [1800000] appended, a string, and
    not the date 1800000 milliseconds ahead. *)
Theorem generateConfirmationKey_expires_is_text
    (dateToString : Z -> jsstring) (token : jsstring) (now : Z) (u : User) :
  let c := confirmation (generateConfirmationKey dateToString token now u) in
  key c = Some token /\
  expires c = Some (VStr (dateToString now ++ str "1800000")) /\
  expires c <> Some (VDate (now + 1800 * 1000)) /\
  tries c = Some (match tries (confirmation u) with
                  | Some n => n + 1
                  | None => 1
                  end).
Proof.
  cbn. repeat split.
  - discriminate.
  - destruct (tries (confirmation u)) as [n |]; cbn; [| reflexivity].
    destruct (Z.eqb_spec n 0) as [-> | _]; reflexivity.
Qed.

(* ===================================================================== *)
(** ** Administrators                                                     *)
(* ===================================================================== *)

(** C8. For a user who is not a superuser and whose role is above 5:
    [isAdmin] with a domain is true exactly when the owner of the domain
    is the user; the [admin] virtual is [isSuperUser() || role <= 5],
    hence false, and so is [isAdmin] without a domain. *)
Theorem isAdmin_domain_owner_only (cfg : Config) (u : User) (d : Domain) :
  truthy (isSuperUser cfg u) = false ->
  5 < role u ->
  (isAdmin cfg u (OfDomain d) = true <-> owner d = _id u) /\
  admin cfg u = truthy (isSuperUser cfg u) || (role u <=? 5) /\
  admin cfg u = false /\
  isAdmin cfg u NoContext = false /\
  isAdmin cfg u NotADomain = false.
Proof.
  intros Hsu Hrole. unfold isAdmin, admin. rewrite Hsu.
  assert (Hr : (role u <=? 5) = false) by (apply Z.leb_gt; exact Hrole).
  rewrite Hr. repeat split.
  - apply bool_decide_eq_true_1.
  - apply bool_decide_eq_true_2.
Qed.

Lemma isAdmin_domain_owner_only_witness :
  (isAdmin sample_config henry (OfDomain company) = true
   <-> owner company = _id henry) /\
  admin sample_config henry
    = truthy (isSuperUser sample_config henry) || (role henry <=? 5) /\
  admin sample_config henry = false /\
  isAdmin sample_config henry NoContext = false /\
  isAdmin sample_config henry NotADomain = false.
Proof.
  apply (isAdmin_domain_owner_only sample_config henry company).
  - reflexivity.
  - vm_compute. reflexivity.
Defined.

(* ===================================================================== *)
(** ** The public projection                                              *)
(* ===================================================================== *)

Lemma lookup_allow_listed (get : string -> option value) (l : list string) (k : string) :
  (list_to_map (omap (fun k => pair k <$> get k) l) : gmap string value) !! k
  = if decide (k ∈ l) then get k else None.
Proof.
  induction l as [| a l IH].
  - cbn. rewrite lookup_empty. case_decide as Hin; [| reflexivity].
    now apply elem_of_nil in Hin.
  - change (omap (fun k => pair k <$> get k) (a :: l))
      with (match pair a <$> get a with
            | Some p => p :: omap (fun k => pair k <$> get k) l
            | None => omap (fun k => pair k <$> get k) l
            end).
    destruct (get a) as [v |] eqn:Ea; cbn [fmap option_fmap option_map].
    + rewrite list_to_map_cons. destruct (decide (a = k)) as [-> | Hne].
      * rewrite lookup_insert_eq. rewrite decide_True by apply list_elem_of_here.
        now symmetry.
      * rewrite lookup_insert_ne by exact Hne. rewrite IH.
        repeat case_decide; try reflexivity.
        -- exfalso. auto using list_elem_of_further.
        -- exfalso. match goal with H : k ∈ a :: l |- _ => apply elem_of_cons in H as [-> | H] end; auto.
    + rewrite IH. destruct (decide (a = k)) as [-> | Hne].
      * rewrite Ea. repeat case_decide; reflexivity.
      * repeat case_decide; try reflexivity.
        -- exfalso. auto using list_elem_of_further.
        -- exfalso. match goal with H : k ∈ a :: l |- _ => apply elem_of_cons in H as [-> | H] end; auto.
Qed.

(** C9. Whatever paths a document has, its public projection has a key
    only if the key is allow-listed, where it carries the attribute of
    the document; the keys [salt] and [encryptedPassword] (and the
    [encrypted_password] of the earlier schema) are never among them. *)
Theorem publicProjection_allow_listed_only (get : string -> option value) :
  (forall (k : string) (v : value),
      publicProjection get !! k = Some v <-> k ∈ publicAttributes /\ get k = Some v) /\
  publicProjection get !! "salt"%string = None /\
  publicProjection get !! "encryptedPassword"%string = None /\
  publicProjection get !! "encrypted_password"%string = None.
Proof.
  unfold publicProjection. split; [| split; [| split]].
  - intros k v. rewrite lookup_allow_listed. case_decide as Hin.
    + tauto.
    + split; [discriminate | tauto].
  - rewrite lookup_allow_listed. apply decide_False.
    unfold publicAttributes. rewrite !elem_of_cons, elem_of_nil.
    intros H. repeat destruct H as [H | H]; discriminate || exact H.
  - rewrite lookup_allow_listed. apply decide_False.
    unfold publicAttributes. rewrite !elem_of_cons, elem_of_nil.
    intros H. repeat destruct H as [H | H]; discriminate || exact H.
  - rewrite lookup_allow_listed. apply decide_False.
    unfold publicAttributes. rewrite !elem_of_cons, elem_of_nil.
    intros H. repeat destruct H as [H | H]; discriminate || exact H.
Qed.

(* ===================================================================== *)
(** ** The session hook                                                   *)
(* ===================================================================== *)

Section Deserialize.

Context {R : Type}.
Variable cfg : Config.
Variable id : ObjectId.
Variable done : option StoreError -> option User -> World -> R.

Lemma deserialize_lookup_failed w e :
  faults w (length (trace w)) = Some e ->
  deserialize cfg id done w = done (Some e) None (after_lookup id w).
Proof. intros Hf. unfold deserialize, findOne. rewrite Hf. reflexivity. Qed.

Lemma deserialize_not_found w :
  faults w (length (trace w)) = None ->
  users w !! id = None ->
  deserialize cfg id done w = done None None (after_lookup id w).
Proof. intros Hf Hu. unfold deserialize, findOne. rewrite Hf, Hu. reflexivity. Qed.

Lemma deserialize_never_seen w u :
  faults w (length (trace w)) = None ->
  users w !! id = Some u ->
  lastRequestAt u = None ->
  deserialize cfg id done w = done None None (after_lookup id w).
Proof.
  intros Hf Hu Hl. unfold deserialize, findOne. rewrite Hf, Hu, Hl. reflexivity.
Qed.

Lemma deserialize_expired w u t :
  faults w (length (trace w)) = None ->
  users w !! id = Some u ->
  lastRequestAt u = Some t ->
  session_timeout cfg < clock w (reads w) - t ->
  deserialize cfg id done w = done None None (newDate (after_lookup id w)).2.
Proof.
  intros Hf Hu Hl Hs. unfold deserialize, findOne. rewrite Hf, Hu, Hl.
  cbn [newDate after_lookup log clock reads].
  destruct (Z.ltb_spec t (clock w (reads w) - session_timeout cfg)); [reflexivity | lia].
Qed.

Lemma deserialize_refresh w u t :
  faults w (length (trace w)) = None ->
  users w !! id = Some u ->
  lastRequestAt u = Some t ->
  clock w (reads w) - t <= session_timeout cfg ->
  deserialize cfg id done w =
    update u (clock w (S (reads w))) (fun err => done err (Some u)) (before_write id w).
Proof.
  intros Hf Hu Hl Hs. unfold deserialize, findOne. rewrite Hf, Hu, Hl.
  cbn [newDate after_lookup log clock reads].
  destruct (Z.ltb_spec t (clock w (reads w) - session_timeout cfg)); [lia | reflexivity].
Qed.

End Deserialize.

Lemma before_write_trace id w :
  length (trace (before_write id w)) = S (length (trace w)).
Proof.
  unfold before_write, after_lookup. cbn. rewrite length_app. cbn. lia.
Qed.

Lemma update_outcome {R} (u : User) (t : Z) (cb : option StoreError -> World -> R) id w :
  update u t cb (before_write id w) =
    match faults w (S (length (trace w))) with
    | Some e => cb (Some e) (log (EvUpdate (_id u) t) (before_write id w))
    | None =>
        cb None (set_users (alter (set_lastRequestAt (Some t)) (_id u) (users w))
                   (log (EvUpdate (_id u) t) (before_write id w)))
    end.
Proof.
  unfold update. rewrite before_write_trace. reflexivity.
Qed.

(** The claim of C1 as the specification words it fails on the code: a
    stored user who has no [lastRequestAt] is not resolved to, and no
    [lastRequestAt] is written; the session resolves to no user. *)
Lemma deserialize_missing_lastRequestAt_counterexample :
  users (world_with henry no_fault) !! 7%N = Some henry /\
  lastRequestAt henry = None /\
  exists w',
    deserialize sample_config 7%N resolved (world_with henry no_fault)
      = (None, None, w') /\
    trace w' = [EvFindOne 7%N] /\
    users w' !! 7%N = Some henry.
Proof.
  assert (Hu : users (world_with henry no_fault) !! 7%N = Some henry)
    by apply lookup_singleton_eq.
  split; [exact Hu |]. split; [reflexivity |].
  exists (after_lookup 7%N (world_with henry no_fault)).
  split; [| split; [reflexivity | exact Hu]].
  apply (deserialize_never_seen sample_config 7%N resolved _ henry);
    [reflexivity | exact Hu | reflexivity].
Qed.

(** C1 (as amended). For a user the lookup finds without
    [lastRequestAt], [deserialize] resolves to no user and no error, as
    for an expired session: nothing but the lookup is sent to the store,
    the collection is left as it is and the clock is not read. *)
Theorem deserialize_missing_lastRequestAt_is_anonymous {R : Type}
    (cfg : Config) (id : ObjectId)
    (done : option StoreError -> option User -> World -> R)
    (w : World) (u : User) :
  faults w (length (trace w)) = None ->
  users w !! id = Some u ->
  lastRequestAt u = None ->
  deserialize cfg id done w = done None None (after_lookup id w) /\
  trace (after_lookup id w) = trace w ++ [EvFindOne id] /\
  users (after_lookup id w) = users w /\
  reads (after_lookup id w) = reads w.
Proof.
  intros Hf Hu Hl. split; [| repeat split].
  now apply deserialize_never_seen with (u := u).
Qed.

Lemma deserialize_missing_lastRequestAt_is_anonymous_witness :
  deserialize sample_config 7%N resolved (world_with henry no_fault)
    = (None, None, after_lookup 7%N (world_with henry no_fault)).
Proof.
  apply (deserialize_missing_lastRequestAt_is_anonymous
           sample_config 7%N resolved (world_with henry no_fault) henry).
  - reflexivity.
  - vm_compute. reflexivity.
  - reflexivity.
Defined.

(** C2. [deserialize] has no error of its own. When the lookup finds
    nothing it resolves to no user without error, having sent the store
    nothing but the lookup; when the time since [lastRequestAt] exceeds
    the timeout it resolves to no user without error; when the lookup
    fails, its error is handed on as it is; and an error is handed to
    [done] only if it is the one the store gave to the lookup or to the
    write. *)
Theorem deserialize_errors_only_from_store {R : Type}
    (cfg : Config) (id : ObjectId)
    (done : option StoreError -> option User -> World -> R) (w : World) :
  (faults w (length (trace w)) = None -> users w !! id = None ->
   deserialize cfg id done w = done None None (after_lookup id w) /\
   trace (after_lookup id w) = trace w ++ [EvFindOne id] /\
   users (after_lookup id w) = users w) /\
  (forall (u : User) (t : Z),
      faults w (length (trace w)) = None -> users w !! id = Some u ->
      lastRequestAt u = Some t ->
      session_timeout cfg < clock w (reads w) - t ->
      deserialize cfg id done w = done None None (newDate (after_lookup id w)).2) /\
  (forall e : StoreError,
      faults w (length (trace w)) = Some e ->
      deserialize cfg id done w = done (Some e) None (after_lookup id w)) /\
  (forall (e : StoreError) (v : option User) (w' : World),
      deserialize cfg id resolved w = (Some e, v, w') ->
      faults w (length (trace w)) = Some e \/
      (faults w (length (trace w)) = None /\
       faults w (S (length (trace w))) = Some e /\
       exists (u : User) (t : Z),
         trace w' = trace w ++ [EvFindOne id; EvUpdate (_id u) t])).
Proof.
  split; [| split; [| split]].
  - intros Hf Hu. split; [| split; reflexivity].
    now apply deserialize_not_found.
  - intros u t. apply deserialize_expired.
  - intros e. apply deserialize_lookup_failed.
  - intros e v w'.
    destruct (faults w (length (trace w))) as [e0 |] eqn:Hf.
    { rewrite (deserialize_lookup_failed _ _ _ _ _ Hf). unfold resolved.
      intros H. left. congruence. }
    destruct (users w !! id) as [u |] eqn:Hu.
    2:{ rewrite (deserialize_not_found _ _ _ _ Hf Hu). discriminate. }
    destruct (lastRequestAt u) as [t |] eqn:Hl.
    2:{ rewrite (deserialize_never_seen _ _ _ _ _ Hf Hu Hl). discriminate. }
    destruct (Z.lt_ge_cases (session_timeout cfg) (clock w (reads w) - t)) as [Hs | Hs].
    { rewrite (deserialize_expired _ _ _ _ _ _ Hf Hu Hl Hs). discriminate. }
    rewrite (deserialize_refresh _ _ _ _ _ _ Hf Hu Hl Hs), update_outcome.
    destruct (faults w (S (length (trace w)))) as [e1 |]; [| discriminate].
    unfold resolved. intros H. injection H as -> <- <-. right.
    split; [reflexivity |]. split; [reflexivity |].
    exists u, (clock w (S (reads w))). cbn. rewrite <- app_assoc. reflexivity.
Qed.

(** The claim of C4 as the specification words it fails on the code: a
    stored user without [lastRequestAt] is not stale as the
    specification counts it, yet [deserialize] sends the store no
    update and resolves to no user. *)
Lemma deserialize_not_stale_counterexample :
  users (world_with ann no_fault) !! 11%N = Some ann /\
  spec_not_stale sample_config (clock (world_with ann no_fault) 0) ann /\
  exists w',
    deserialize sample_config 11%N resolved (world_with ann no_fault)
      = (None, None, w') /\
    trace w' = [EvFindOne 11%N] /\
    users w' !! 11%N = Some ann.
Proof.
  assert (Hu : users (world_with ann no_fault) !! 11%N = Some ann)
    by apply lookup_singleton_eq.
  split; [exact Hu |]. split; [exact I |].
  exists (after_lookup 11%N (world_with ann no_fault)).
  split; [| split; [reflexivity | exact Hu]].
  apply (deserialize_never_seen sample_config 11%N resolved _ ann);
    [reflexivity | exact Hu | reflexivity].
Qed.

(** C4 (as amended). For a user the lookup finds whose [lastRequestAt]
    is present and no older than the timeout, [deserialize] sends the
    store the update of
    [lastRequestAt] to the current reading of the clock and calls [done]
    from the callback of that update: with the error of the write when
    it fails, else with no error and the user, the collection then
    holding the new [lastRequestAt] under the id of the user. *)
Theorem deserialize_fresh_waits_for_write {R : Type}
    (cfg : Config) (id : ObjectId)
    (done : option StoreError -> option User -> World -> R)
    (w : World) (u : User) (t : Z) :
  faults w (length (trace w)) = None ->
  users w !! id = Some u ->
  lastRequestAt u = Some t ->
  clock w (reads w) - t <= session_timeout cfg ->
  let now := clock w (S (reads w)) in
  let written := log (EvUpdate (_id u) now) (before_write id w) in
  trace written = trace w ++ [EvFindOne id; EvUpdate (_id u) now] /\
  match faults w (S (length (trace w))) with
  | Some e =>
      deserialize cfg id done w = done (Some e) (Some u) written /\
      users written = users w
  | None =>
      deserialize cfg id done w =
        done None (Some u)
          (set_users (alter (set_lastRequestAt (Some now)) (_id u) (users w)) written) /\
      (_id u = id ->
       alter (set_lastRequestAt (Some now)) (_id u) (users w) !! id
         = Some (set_lastRequestAt (Some now) u))
  end.
Proof.
  intros Hf Hu Hl Hs now written. split.
  - subst written. cbn. rewrite <- app_assoc. reflexivity.
  - rewrite (deserialize_refresh _ _ _ _ _ _ Hf Hu Hl Hs), update_outcome.
    fold now. fold written.
    destruct (faults w (S (length (trace w)))) as [e |]; split; try reflexivity.
    intros ->. rewrite lookup_alter_eq, Hu. reflexivity.
Qed.

Lemma deserialize_errors_only_from_store_witness :
  (* the lookup finds nothing *)
  deserialize sample_config 8%N resolved (world_with henry no_fault)
    = (None, None, after_lookup 8%N (world_with henry no_fault)) /\
  (* last request 10 s ago, timeout 5 s *)
  deserialize sample_config 7%N resolved (world_with (henry_seen 90000) no_fault)
    = (None, None,
       (newDate (after_lookup 7%N (world_with (henry_seen 90000) no_fault))).2) /\
  (* the lookup fails *)
  deserialize sample_config 7%N resolved
      (world_with henry (fault_at 0 (MongoError "connection closed")))
    = (Some (MongoError "connection closed"), None,
       after_lookup 7%N (world_with henry (fault_at 0 (MongoError "connection closed")))) /\
  (* the write fails *)
  (exists w',
     deserialize sample_config 7%N resolved
         (world_with (henry_seen 99000) (fault_at 1 (MongoError "connection closed")))
       = (Some (MongoError "connection closed"), Some (henry_seen 99000), w') /\
     trace w' = [EvFindOne 7%N; EvUpdate 7%N 100001]).
Proof.
  split; [| split; [| split]].
  - apply (proj1 (deserialize_errors_only_from_store
                    sample_config 8%N resolved (world_with henry no_fault))).
    + reflexivity.
    + vm_compute. reflexivity.
  - apply (proj1 (proj2 (deserialize_errors_only_from_store
                    sample_config 7%N resolved
                    (world_with (henry_seen 90000) no_fault)))
             (henry_seen 90000) 90000).
    + reflexivity.
    + vm_compute. reflexivity.
    + reflexivity.
    + vm_compute. reflexivity.
  - apply (proj1 (proj2 (proj2 (deserialize_errors_only_from_store
                    sample_config 7%N resolved
                    (world_with henry (fault_at 0 (MongoError "connection closed"))))))).
    reflexivity.
  - eexists. split; [reflexivity |].
    destruct (proj2 (proj2 (proj2 (deserialize_errors_only_from_store
                    sample_config 7%N resolved
                    (world_with (henry_seen 99000)
                       (fault_at 1 (MongoError "connection closed"))))))
                (MongoError "connection closed") (Some (henry_seen 99000)) _ eq_refl)
      as [Hlookup | (_ & _ & u & t & Htrace)].
    + discriminate Hlookup.
    + reflexivity.
Defined.

Lemma deserialize_fresh_waits_for_write_witness :
  (* last request 1 s ago, timeout 5 s *)
  deserialize sample_config 7%N resolved (world_with (henry_seen 99000) no_fault)
    = (None, Some (henry_seen 99000),
       set_users
         (alter (set_lastRequestAt (Some 100001)) 7%N
            (users (world_with (henry_seen 99000) no_fault)))
         (log (EvUpdate 7%N 100001)
            (before_write 7%N (world_with (henry_seen 99000) no_fault)))).
Proof.
  apply (deserialize_fresh_waits_for_write
           sample_config 7%N resolved
           (world_with (henry_seen 99000) no_fault) (henry_seen 99000) 99000).
  - reflexivity.
  - vm_compute. reflexivity.
  - reflexivity.
  - vm_compute. discriminate.
Defined.

(* ===================================================================== *)
(** ** Names                                                              *)
(* ===================================================================== *)

Lemma path_truthy_string o :
  path_truthy o = true -> path_string o <> [].
Proof. destruct o as [[| c s] |]; simpl; congruence. Qed.

(** X1. The full name is empty only when the document has no first
    name, no last name and an empty email: with a non-empty email the
    getter always yields a non-empty string. *)
Theorem getUserFullName_empty_iff (u : User) :
  getUserFullName u = [] <->
  path_truthy (name_first u) = false /\ path_truthy (name_last u) = false /\
  email u = [].
Proof.
  unfold getUserFullName.
  destruct (path_truthy (name_first u)) eqn:Hf;
    destruct (path_truthy (name_last u)) eqn:Hl; cbn [andb].
  - split; [| intros (H & _); discriminate].
    intros H. apply app_eq_nil in H as [H _].
    now apply path_truthy_string in Hf.
  - split; [| intros (H & _); discriminate].
    intros H. now apply path_truthy_string in Hf.
  - split; [| intros (_ & H & _); discriminate].
    intros H. now apply path_truthy_string in Hl.
  - tauto.
Qed.

Lemma split_on_spaceless s :
  spaceless s -> forall rest,
  split_on (chr " ") (s ++ chr " " :: rest) = s :: split_on (chr " ") rest.
Proof.
  induction 1 as [| c s Hc _ IH]; intros rest.
  - reflexivity.
  - cbn [app split_on]. rewrite IH.
    destruct (N.eqb_spec c (chr " ")); [contradiction | reflexivity].
Qed.

Lemma split_on_word s : spaceless s -> split_on (chr " ") s = [s].
Proof.
  induction 1 as [| c s Hc _ IH].
  - reflexivity.
  - cbn [split_on]. rewrite IH.
    destruct (N.eqb_spec c (chr " ")); [contradiction | reflexivity].
Qed.

Lemma split_on_two_words a b rest :
  spaceless a -> spaceless b ->
  rest = [] \/ (exists r, rest = chr " " :: r) ->
  exists pieces, split_on (chr " ") (a ++ chr " " :: b ++ rest) = a :: b :: pieces.
Proof.
  intros Ha Hb Hrest. rewrite (split_on_spaceless a Ha).
  destruct Hrest as [-> | [r ->]].
  - rewrite app_nil_r, (split_on_word b Hb). now exists [].
  - rewrite (split_on_spaceless b Hb). eauto.
Qed.

(** X2. Setting the full name to two non-empty words separated by one
    space, and reading it back, gives the same string; whatever follows
    a second space is lost: the getter then yields the first two words
    only. *)
Theorem set_fullName_keeps_two_words (a b rest : jsstring) (u : User) :
  spaceless a -> spaceless b -> a <> [] -> b <> [] ->
  rest = [] \/ (exists r, rest = chr " " :: r) ->
  name_first (set_fullName (a ++ chr " " :: b ++ rest) u) = Some a /\
  name_last (set_fullName (a ++ chr " " :: b ++ rest) u) = Some b /\
  getUserFullName (set_fullName (a ++ chr " " :: b ++ rest) u) = a ++ chr " " :: b.
Proof.
  intros Ha Hb Hane Hbne Hrest.
  destruct (split_on_two_words a b rest Ha Hb Hrest) as [pieces Hs].
  unfold set_fullName, getUserFullName. rewrite Hs. cbn.
  destruct a as [| x a]; [congruence |]. destruct b as [| y b]; [congruence |].
  repeat split.
Qed.

Lemma set_fullName_keeps_two_words_witness :
  getUserFullName (set_fullName (str "Henry King") henry) = str "Henry King" /\
  getUserFullName (set_fullName (str "Henry the King") henry) = str "Henry the".
Proof.
  split.
  - apply (set_fullName_keeps_two_words (str "Henry") (str "King") [] henry).
    + vm_compute. repeat constructor; discriminate.
    + vm_compute. repeat constructor; discriminate.
    + discriminate.
    + discriminate.
    + left. reflexivity.
  - apply (set_fullName_keeps_two_words (str "Henry") (str "the") (str " King") henry).
    + vm_compute. repeat constructor; discriminate.
    + vm_compute. repeat constructor; discriminate.
    + discriminate.
    + discriminate.
    + right. eexists. reflexivity.
Defined.

(** X3. Setting the full name to a string without a space stores it as
    the first name and leaves the last name missing, whatever it was
    before; the getter then yields that string, or the email when the
    string is empty. *)
Theorem set_fullName_one_word (name : jsstring) (u : User) :
  spaceless name ->
  name_first (set_fullName name u) = Some name /\
  name_last (set_fullName name u) = None /\
  getUserFullName (set_fullName name u) = (if name is [] then email u else name).
Proof.
  intros Hn. unfold set_fullName, getUserFullName.
  rewrite (split_on_word name Hn). cbn. destruct name; repeat split.
Qed.

Lemma set_fullName_one_word_witness :
  name_first (set_fullName (str "Henry") henry) = Some (str "Henry") /\
  name_last (set_fullName (str "Henry") henry) = None /\
  getUserFullName (set_fullName (str "Henry") henry) = str "Henry".
Proof.
  apply (set_fullName_one_word (str "Henry") henry).
  vm_compute. repeat constructor; discriminate.
Defined.

(* ===================================================================== *)
(** ** The email validator                                                *)
(* ===================================================================== *)

Lemma search_at_sign s : search at_sign s = true <-> chr "@" ∈ s.
Proof.
  rewrite RegexFacts.search_spec. unfold at_sign.
  change (chr "@") with 64%N. split.
  - intros (pre & m & post & -> & Hm). inversion Hm as [ | lo hi c Hc | | | | | ]; subst.
    unfold in_range in Hc. apply andb_true_iff in Hc as [H1 H2].
    apply N.leb_le in H1, H2. assert (c = 64%N) as -> by lia.
    rewrite !elem_of_app, elem_of_cons. auto.
  - intros Hin. apply list_elem_of_split in Hin as (pre & post & ->).
    exists pre, [64%N], post. split; [reflexivity |].
    constructor. reflexivity.
Qed.

(** X4. The email validator never throws; it accepts exactly the
    strings that contain an [@], and rejects a missing or empty value. *)
Theorem EmailValidator_accepts_iff_at_sign (val : strarg) :
  exists accepted : bool,
    EmailValidator val = Return accepted /\
    (accepted = true <-> exists s, val = AStr s /\ chr "@" ∈ s).
Proof.
  destruct val as [| | [| c s]].
  - exists false. split; [reflexivity |]. split; [discriminate | intros (s & H & _); discriminate].
  - exists false. split; [reflexivity |]. split; [discriminate | intros (s & H & _); discriminate].
  - exists false. split; [reflexivity |]. split; [discriminate |].
    intros (s & H & Hin). injection H as <-. now apply elem_of_nil in Hin.
  - exists (search at_sign (c :: s)). split; [reflexivity |].
    rewrite search_at_sign. split.
    + intros H. eauto.
    + intros (s' & H & Hin). injection H as <-. exact Hin.
Qed.

(* ===================================================================== *)
(** ** Setting a password                                                 *)
(* ===================================================================== *)

(** X5. Setting a password never throws, whatever the document held
    before: it stores a salt and a digest together, keeps the plaintext
    readable on the instance only, and afterwards [authenticate] returns
    [true] for that plaintext, and for another one exactly when its
    digest under the new salt is the same. *)
Theorem set_password_then_authenticate
    (hmacHex : jsstring -> jsstring -> jsstring -> jsstring)
    (rounded : Z) (password : jsstring) (i : Instance) :
  exists i' : Instance,
    set_password hmacHex rounded password i = Return i' /\
    salt (doc i') = Some (generateSalt rounded) /\
    encryptedPassword (doc i')
      = Some (hmacHex (str "sha256WithRSAEncryption") (generateSalt rounded) password) /\
    get_password i' = Some password /\
    authenticate hmacHex (doc i') password = Return true /\
    (forall other : jsstring,
        authenticate hmacHex (doc i') other
        = Return (bool_decide
                    (hmacHex (str "sha256WithRSAEncryption") (generateSalt rounded) other
                     = hmacHex (str "sha256WithRSAEncryption") (generateSalt rounded) password))).
Proof.
  set (alg := str "sha256WithRSAEncryption").
  set (d := set_encryptedPassword
              (Some (hmacHex alg (generateSalt rounded) password))
              (set_salt (Some (generateSalt rounded)) (doc i))).
  assert (Hother : forall other : jsstring,
    authenticate hmacHex d other
    = Return (bool_decide (hmacHex alg (generateSalt rounded) other
                           = hmacHex alg (generateSalt rounded) password))).
  { intros other. unfold authenticate. rewrite encryptPassword_salt.
    subst d. cbn. f_equal. apply bool_decide_ext. split; congruence. }
  exists {| doc := d; _password := Some password |}.
  split; [reflexivity |]. split; [reflexivity |]. split; [reflexivity |].
  split; [reflexivity |]. split; [| exact Hother].
  cbn [doc]. rewrite Hother. now rewrite bool_decide_eq_true_2.
Qed.

(* ===================================================================== *)
(** ** Superusers and administrators                                      *)
(* ===================================================================== *)

Lemma indexOf_from_found i l x :
  0 <= i -> (0 <= indexOf_from i l x <-> x ∈ l).
Proof.
  revert i. induction l as [| y l IH]; intros i Hi; cbn [indexOf_from].
  - split; [lia | intros H; now apply elem_of_nil in H].
  - rewrite elem_of_cons. case_bool_decide as Hxy.
    + split; [auto | lia].
    + rewrite IH by lia. split; [auto | intros [-> | H]; [congruence | exact H]].
Qed.

Lemma isSuperUser_listed (cfg : Config) (u : User) (l : list jsstring) :
  superusers cfg = Some l ->
  (truthy (isSuperUser cfg u) = true <-> email u ∈ l).
Proof.
  intros Hl. unfold isSuperUser. rewrite Hl. cbn [truthy].
  rewrite Z.leb_le. unfold indexOf. now rewrite indexOf_from_found by lia.
Qed.

(** X6. [isSuperUser()] is truthy exactly when the configuration has a
    [superusers] list and the email of the document is one of its
    entries, code unit for code unit; without the key, or with an empty
    list, nobody is a superuser. *)
Theorem isSuperUser_iff_listed (cfg : Config) (u : User) :
  truthy (isSuperUser cfg u) = true <->
  exists l, superusers cfg = Some l /\ email u ∈ l.
Proof.
  destruct (superusers cfg) as [l |] eqn:Hl.
  - rewrite (isSuperUser_listed cfg u l Hl).
    split; [eauto | intros (l' & H & Hin); congruence].
  - unfold isSuperUser. rewrite Hl.
    split; [discriminate | intros (l & H & _); discriminate].
Qed.

(** X7. A user whose email is listed in [superusers] is an
    administrator everywhere: [isAdmin] is true with any argument, and
    so is the [admin] virtual, whatever the role and whoever owns the
    domain. *)
Theorem superuser_is_admin_everywhere
    (cfg : Config) (u : User) (l : list jsstring) (ctx : groupOrDomain) :
  superusers cfg = Some l -> email u ∈ l ->
  isAdmin cfg u ctx = true /\ admin cfg u = true.
Proof.
  intros Hl Hin.
  assert (Hsu : truthy (isSuperUser cfg u) = true)
    by (now apply (isSuperUser_listed cfg u l Hl)).
  unfold isAdmin, admin. rewrite Hsu. split; reflexivity.
Qed.

Lemma superuser_is_admin_everywhere_witness :
  isAdmin sample_config root_user (OfDomain company) = true /\
  admin sample_config root_user = true.
Proof.
  apply (superuser_is_admin_everywhere sample_config root_user
           [str "root@example.com"] (OfDomain company)).
  - reflexivity.
  - vm_compute. apply list_elem_of_here.
Defined.

(** X8. For a user who is not a superuser, [isAdmin] with a domain
    looks at the owner only, not at the role: it is true exactly when
    the user owns the domain. A user with a role of 5 or less is thus
    [admin], and an administrator without a domain, but not an
    administrator of a domain of somebody else. *)
Theorem isAdmin_domain_ignores_role (cfg : Config) (u : User) (d : Domain) :
  truthy (isSuperUser cfg u) = false ->
  (isAdmin cfg u (OfDomain d) = true <-> owner d = _id u) /\
  isAdmin cfg u NoContext = admin cfg u /\
  (role u <= 5 -> owner d <> _id u ->
   admin cfg u = true /\ isAdmin cfg u NoContext = true /\
   isAdmin cfg u (OfDomain d) = false).
Proof.
  intros Hsu. unfold isAdmin, admin. rewrite Hsu. split; [| split].
  - split; [apply bool_decide_eq_true_1 | apply bool_decide_eq_true_2].
  - reflexivity.
  - intros Hr Ho. rewrite (proj2 (Z.leb_le _ _) Hr).
    now rewrite bool_decide_eq_false_2.
Qed.

Lemma isAdmin_domain_ignores_role_witness :
  admin sample_config ann = true /\
  isAdmin sample_config ann NoContext = true /\
  isAdmin sample_config ann (OfDomain company) = false.
Proof.
  apply (isAdmin_domain_ignores_role sample_config ann company).
  - reflexivity.
  - vm_compute. discriminate.
  - vm_compute. discriminate.
Defined.

(* ===================================================================== *)
(** ** Confirmation keys, call after call                                 *)
(* ===================================================================== *)

Lemma generateConfirmationKey_tries dateToString token now u :
  tries (confirmation (generateConfirmationKey dateToString token now u))
  = Some (default 0 (tries (confirmation u)) + 1).
Proof.
  cbn. destruct (tries (confirmation u)) as [n |]; cbn; [| reflexivity].
  destruct (Z.eqb_spec n 0) as [-> | _]; reflexivity.
Qed.

Lemma generateConfirmationKeys_tries dateToString calls : forall u,
  default 0 (tries (confirmation (generateConfirmationKeys dateToString calls u)))
  = default 0 (tries (confirmation u)) + Z.of_nat (length calls).
Proof.
  unfold generateConfirmationKeys.
  induction calls as [| call calls IH]; intros u; cbn [foldl length].
  - lia.
  - rewrite IH, generateConfirmationKey_tries.
    cbn [default from_option id]. lia.
Qed.

Lemma generateConfirmationKeys_other_paths dateToString calls : forall c u,
  set_confirmation c (generateConfirmationKeys dateToString calls u)
  = set_confirmation c u.
Proof.
  unfold generateConfirmationKeys.
  induction calls as [| call calls IH]; intros c u; cbn [foldl].
  - reflexivity.
  - rewrite IH. reflexivity.
Qed.

(** X9. The tries counter counts the calls, as long as it stays within
    the range in which a [Number] counts exactly: when the counter
    starts at -2^53 or above (0 when it is missing) and the calls do not
    take it beyond 2^53, then after any run of calls of
    [generateConfirmationKey] followed by one more, the counter is its
    value before the run plus the number of calls, the key is the token
    of the last call, and the id, the email, the salt and the digest of
    the document are what they were. *)
Theorem generateConfirmationKey_counts_calls
    (dateToString : Z -> jsstring) (calls : list (jsstring * Z))
    (token : jsstring) (now : Z) (u : User) :
  - 2 ^ 53 <= default 0 (tries (confirmation u)) ->
  default 0 (tries (confirmation u)) + Z.of_nat (length calls) + 1 <= 2 ^ 53 ->
  let u' := generateConfirmationKeys dateToString (calls ++ [(token, now)]) u in
  tries (confirmation u')
    = Some (default 0 (tries (confirmation u)) + Z.of_nat (length calls) + 1) /\
  key (confirmation u') = Some token /\
  set_confirmation (confirmation u) u' = u.
Proof.
  intros _ _. cbn zeta. split; [| split].
  - unfold generateConfirmationKeys. rewrite foldl_app. cbn [foldl fst snd].
    fold (generateConfirmationKeys dateToString calls u).
    now rewrite generateConfirmationKey_tries, generateConfirmationKeys_tries.
  - unfold generateConfirmationKeys. rewrite foldl_app. reflexivity.
  - rewrite generateConfirmationKeys_other_paths. destruct u; reflexivity.
Qed.

Lemma generateConfirmationKey_counts_calls_witness :
  (* two calls on a document that has no counter yet *)
  let u' := generateConfirmationKeys sample_dateToString
              ([(str "a1B2c3D4", 100000)] ++ [(str "e5F6g7H8", 160000)]) henry in
  tries (confirmation u') = Some (0 + 1 + 1) /\
  key (confirmation u') = Some (str "e5F6g7H8") /\
  set_confirmation (confirmation henry) u' = henry.
Proof.
  apply (generateConfirmationKey_counts_calls sample_dateToString
           [(str "a1B2c3D4", 100000)] (str "e5F6g7H8") 160000 henry).
  - vm_compute. discriminate.
  - vm_compute. discriminate.
Defined.

(* ===================================================================== *)
(** ** The password policy, on every input                                *)
(* ===================================================================== *)

Lemma strict_neq_false a b : strict_neq a b = false -> a = b.
Proof.
  unfold strict_neq. intros H. apply bool_decide_eq_false_1 in H.
  destruct (decide (a = b)); [assumption | contradiction].
Qed.

(** X10. [checkPassword] never throws, whatever is passed for the
    password and its confirmation: it returns one of its four results,
    and [too_short] exactly when the password is missing or has fewer
    than 6 code units. *)
Theorem checkPassword_never_throws (pwd confirm_pwd : strarg) :
  exists result : list value,
    checkPassword pwd confirm_pwd = Return result /\
    result ∈ [too_short; confirmation_missmatch; requirements_not_met; password_ok] /\
    (result = too_short <-> forall s, pwd = AStr s -> (length s < 6)%nat).
Proof.
  destruct pwd as [| | s].
  - exists too_short. split; [reflexivity |]. split; [apply list_elem_of_here |].
    split; [discriminate | reflexivity].
  - exists too_short. split; [reflexivity |]. split; [apply list_elem_of_here |].
    split; [discriminate | reflexivity].
  - destruct (Nat.lt_ge_cases (length s) 6) as [Hlt | Hge].
    + exists too_short. split; [now apply checkPassword_short |].
      split; [apply list_elem_of_here |].
      split; [intros _ s' [= <-]; exact Hlt | reflexivity].
    + rewrite checkPassword_long by exact Hge.
      assert (Hlong : ~ (forall s', AStr s = AStr s' -> (length s' < 6)%nat))
        by (intros H; specialize (H s eq_refl); lia).
      destruct (arg_truthy confirm_pwd && strict_neq confirm_pwd (AStr s));
        [| destruct (search password_pattern s)];
        eexists; (split; [reflexivity |]); (split; [set_solver |]);
        (split; [discriminate | intros H; contradiction]).
Qed.

Lemma checkPassword_accepted (pwd confirm_pwd : strarg) :
  checkPassword pwd confirm_pwd = Return password_ok ->
  exists s, pwd = AStr s /\ (6 <= length s)%nat /\
            confirmation_passes pwd confirm_pwd /\
            has_upper_lower_digit_run s.
Proof.
  destruct pwd as [| | s]; try discriminate.
  destruct (Nat.lt_ge_cases (length s) 6) as [Hlt | Hge].
  { rewrite checkPassword_short by exact Hlt. discriminate. }
  rewrite checkPassword_long by exact Hge.
  destruct (arg_truthy confirm_pwd) eqn:Ht; cbn [andb].
  - destruct (strict_neq confirm_pwd (AStr s)) eqn:Hn; [discriminate |].
    apply strict_neq_false in Hn.
    destruct (search password_pattern s) eqn:Hs; [| discriminate].
    intros _. exists s. repeat split; auto.
    + now right.
    + now apply search_password_pattern.
  - destruct (search password_pattern s) eqn:Hs; [| discriminate].
    intros _. exists s. repeat split; auto.
    + now left.
    + now apply search_password_pattern.
Qed.

(** X11. What [checkPassword] accepts: exactly the strings of at least 6
    code units that have a run of uppercase letters directly followed
    by a run of lowercase letters directly followed by a run of digits,
    when the confirmation is missing, empty, or the password itself. *)
Theorem checkPassword_accepts_iff (pwd confirm_pwd : strarg) :
  checkPassword pwd confirm_pwd = Return password_ok <->
  exists s, pwd = AStr s /\ (6 <= length s)%nat /\
            confirmation_passes pwd confirm_pwd /\
            has_upper_lower_digit_run s.
Proof.
  split; [apply checkPassword_accepted |].
  intros (s & -> & Hge & Hc & Hrun).
  rewrite checkPassword_long by exact Hge.
  rewrite (confirmation_passes_false _ _ Hc).
  apply search_password_pattern in Hrun. now rewrite Hrun.
Qed.

Lemma run_head lo hi m :
  run lo hi m -> exists c m', m = c :: m' /\ in_range lo hi c = true.
Proof.
  intros [Hne HF]. destruct m as [| c m']; [congruence |].
  inversion HF; subst. eauto.
Qed.

(** X12. Every password [checkPassword] accepts has an uppercase letter,
    after it a lowercase letter, and after that a digit. *)
Theorem checkPassword_accepted_has_classes_in_order (s : jsstring) (confirm_pwd : strarg) :
  checkPassword (AStr s) confirm_pwd = Return password_ok ->
  spec_relative_order s.
Proof.
  intros H. apply checkPassword_accepted in H as (s' & [= <-] & _ & _ & Hrun).
  destruct Hrun as (pre & u & l & d & post & -> & Hu & Hl & Hd).
  apply run_head in Hu as (a & u' & -> & Ha).
  apply run_head in Hl as (b & l' & -> & Hb).
  apply run_head in Hd as (c & d' & -> & Hc).
  exists (length pre), (length pre + S (length u'))%nat,
         (length pre + S (length u') + S (length l'))%nat, a, b, c.
  split; [lia |]. split; [lia |].
  split; [| split; [| split; [| auto]]].
  - cbn. now apply list_lookup_middle.
  - replace (pre ++ ((a :: u') ++ (b :: l') ++ c :: d') ++ post)
      with ((pre ++ a :: u') ++ b :: (l' ++ c :: d') ++ post)
      by (repeat first [rewrite <- app_assoc | progress cbn [app]]; reflexivity).
    apply list_lookup_middle. rewrite length_app. cbn. lia.
  - replace (pre ++ ((a :: u') ++ (b :: l') ++ c :: d') ++ post)
      with (((pre ++ a :: u') ++ b :: l') ++ c :: d' ++ post)
      by (repeat first [rewrite <- app_assoc | progress cbn [app]]; reflexivity).
    apply list_lookup_middle. rewrite !length_app. cbn. lia.
Qed.

Lemma checkPassword_accepted_has_classes_in_order_witness :
  spec_relative_order (str "Abcdef1").
Proof.
  apply (checkPassword_accepted_has_classes_in_order (str "Abcdef1") AUndefined).
  reflexivity.
Defined.

(* ===================================================================== *)
(** ** The session hook, on every world                                   *)
(* ===================================================================== *)

(** The four ways [deserialize] ends. *)
Lemma deserialize_outcome cfg id w :
  (exists e,
      faults w (length (trace w)) = Some e /\
      deserialize cfg id resolved w = (Some e, None, after_lookup id w)) \/
  (faults w (length (trace w)) = None /\
   (users w !! id = None \/
    exists u, users w !! id = Some u /\ lastRequestAt u = None) /\
   deserialize cfg id resolved w = (None, None, after_lookup id w)) \/
  (exists u t,
      faults w (length (trace w)) = None /\
      users w !! id = Some u /\ lastRequestAt u = Some t /\
      session_timeout cfg < clock w (reads w) - t /\
      deserialize cfg id resolved w
        = (None, None, (newDate (after_lookup id w)).2)) \/
  (exists u t,
      faults w (length (trace w)) = None /\
      users w !! id = Some u /\ lastRequestAt u = Some t /\
      clock w (reads w) - t <= session_timeout cfg /\
      deserialize cfg id resolved w
        = (faults w (S (length (trace w))), Some u,
           match faults w (S (length (trace w))) with
           | Some _ => log (EvUpdate (_id u) (clock w (S (reads w)))) (before_write id w)
           | None =>
               set_users
                 (alter (set_lastRequestAt (Some (clock w (S (reads w))))) (_id u) (users w))
                 (log (EvUpdate (_id u) (clock w (S (reads w)))) (before_write id w))
           end)).
Proof.
  destruct (faults w (length (trace w))) as [e |] eqn:Hf.
  { left. exists e. split; [reflexivity |].
    exact (deserialize_lookup_failed cfg id resolved w e Hf). }
  right. destruct (users w !! id) as [u |] eqn:Hu.
  2:{ left. split; [reflexivity |]. split; [now left |].
      exact (deserialize_not_found cfg id resolved w Hf Hu). }
  destruct (lastRequestAt u) as [t |] eqn:Hl.
  2:{ left. split; [reflexivity |]. split; [right; eauto |].
      exact (deserialize_never_seen cfg id resolved w u Hf Hu Hl). }
  right.
  destruct (Z.lt_ge_cases (session_timeout cfg) (clock w (reads w) - t)) as [Hs | Hs].
  { left. exists u, t. repeat split; auto.
    exact (deserialize_expired cfg id resolved w u t Hf Hu Hl Hs). }
  right. exists u, t. repeat split; auto.
  rewrite (deserialize_refresh _ _ _ _ _ _ Hf Hu Hl Hs), update_outcome.
  destruct (faults w (S (length (trace w)))); reflexivity.
Qed.

(** X13. [deserialize] hands a user to [done] only when the lookup
    found that document and its [lastRequestAt] is present and no older
    than the timeout; an expired or never seen user is never resolved
    to. The document handed on is the one the lookup returned: it still
    carries the previous [lastRequestAt]. *)
Theorem deserialize_resolves_only_fresh_users
    (cfg : Config) (id : ObjectId) (w w' : World)
    (err : option StoreError) (u : User) :
  deserialize cfg id resolved w = (err, Some u, w') ->
  faults w (length (trace w)) = None /\
  users w !! id = Some u /\
  exists t, lastRequestAt u = Some t /\
            clock w (reads w) - t <= session_timeout cfg /\
            err = faults w (S (length (trace w))).
Proof.
  intros H.
  destruct (deserialize_outcome cfg id w)
    as [(e & _ & E) | [(_ & _ & E) | [(u0 & t & _ & _ & _ & _ & E)
                                     | (u0 & t & Hf & Hu & Hl & Hs & E)]]];
    rewrite E in H; try discriminate.
  injection H as <- <- <-. eauto 10.
Qed.

Lemma deserialize_resolves_only_fresh_users_witness :
  users (world_with (henry_seen 99000) no_fault) !! 7%N = Some (henry_seen 99000) /\
  exists t, lastRequestAt (henry_seen 99000) = Some t /\
            clock (world_with (henry_seen 99000) no_fault) 0 - t
              <= session_timeout sample_config.
Proof.
  destruct (deserialize_resolves_only_fresh_users sample_config 7%N
              (world_with (henry_seen 99000) no_fault)
              (set_users
                 (alter (set_lastRequestAt (Some 100001)) 7%N
                    (users (world_with (henry_seen 99000) no_fault)))
                 (log (EvUpdate 7%N 100001)
                    (before_write 7%N (world_with (henry_seen 99000) no_fault))))
              None (henry_seen 99000))
    as (_ & Hu & t & Hl & Hs & _).
  - vm_compute. reflexivity.
  - split; [exact Hu |]. exists t. split; [exact Hl | exact Hs].
Defined.

(** X14. Whatever the outcome, [deserialize] adds no document to the
    collection, removes none, and changes no path of any document but
    [lastRequestAt]; the faults to come and the clock are not its to
    change. *)
Theorem deserialize_touches_lastRequestAt_only
    (cfg : Config) (id : ObjectId) (w : World) :
  let w' := (deserialize cfg id resolved w).2 in
  (forall k : ObjectId,
      but_lastRequestAt <$> users w' !! k = but_lastRequestAt <$> users w !! k) /\
  faults w' = faults w /\ clock w' = clock w.
Proof.
  cbn zeta.
  destruct (deserialize_outcome cfg id w)
    as [(e & _ & E) | [(_ & _ & E) | [(u0 & t & _ & _ & _ & _ & E)
                                     | (u0 & t & Hf & Hu & Hl & Hs & E)]]];
    rewrite E; cbn [snd]; try (repeat split; reflexivity).
  destruct (faults w (S (length (trace w)))); [repeat split; reflexivity |].
  split; [| split; reflexivity].
  intros k. cbn [users set_users].
  destruct (decide (_id u0 = k)) as [<- | Hne].
  - rewrite lookup_alter_eq. destruct (users w !! _id u0); reflexivity.
  - now rewrite lookup_alter_ne.
Qed.

(** X15. What [deserialize] sends to the store: the lookup, and after
    it one update exactly when a user is handed to [done]; the update
    names the id of that user and the reading of the clock taken after
    the staleness test. *)
Theorem deserialize_requests (cfg : Config) (id : ObjectId) (w : World) :
  let '(err, user, w') := deserialize cfg id resolved w in
  trace w' = trace w ++ EvFindOne id ::
               match user with
               | Some u => [EvUpdate (_id u) (clock w (S (reads w)))]
               | None => []
               end.
Proof.
  destruct (deserialize_outcome cfg id w)
    as [(e & _ & E) | [(_ & _ & E) | [(u0 & t & _ & _ & _ & _ & E)
                                     | (u0 & t & Hf & Hu & Hl & Hs & E)]]];
    rewrite E; try reflexivity.
  destruct (faults w (S (length (trace w)))); cbn; now rewrite <- app_assoc.
Qed.

(** X16. Serializing a user and deserializing the result resolves to
    the document the store holds under the id of that user, when that
    document is fresh and the store answers: only the id travels
    through the session. *)
Theorem serialize_then_deserialize
    (cfg : Config) (u stored : User) (t : Z) (w : World) :
  faults w (length (trace w)) = None ->
  faults w (S (length (trace w))) = None ->
  users w !! _id u = Some stored ->
  lastRequestAt stored = Some t ->
  clock w (reads w) - t <= session_timeout cfg ->
  exists w',
    serialize u (fun _ id => deserialize cfg id resolved) w = (None, Some stored, w').
Proof.
  intros Hf Hf' Hu Hl Hs. unfold serialize.
  rewrite (deserialize_refresh _ _ _ _ _ _ Hf Hu Hl Hs), update_outcome, Hf'.
  eexists. reflexivity.
Qed.

Lemma serialize_then_deserialize_witness :
  exists w',
    serialize henry (fun _ id => deserialize sample_config id resolved)
      (world_with (henry_seen 99000) no_fault)
    = (None, Some (henry_seen 99000), w').
Proof.
  apply (serialize_then_deserialize sample_config henry (henry_seen 99000) 99000
           (world_with (henry_seen 99000) no_fault)).
  - reflexivity.
  - reflexivity.
  - vm_compute. reflexivity.
  - reflexivity.
  - vm_compute. discriminate.
Defined.

Lemma refreshed_world id w u now :
  let w1 := set_users (alter (set_lastRequestAt (Some now)) (_id u) (users w))
              (log (EvUpdate (_id u) now) (before_write id w)) in
  faults w1 = faults w /\ clock w1 = clock w /\
  reads w1 = S (S (reads w)) /\
  length (trace w1) = S (S (length (trace w))) /\
  users w1 = alter (set_lastRequestAt (Some now)) (_id u) (users w).
Proof.
  cbn. repeat split. rewrite !length_app. cbn. lia.
Qed.

(** X17. Each resolved request renews the session: when a request
    finds the user fresh and its write succeeds, the next request is
    measured against the time of that write, not against the earlier
    [lastRequestAt]; if it comes within the timeout of it and the store
    answers, it resolves to the user again, now carrying the time of
    the first write, and moves the stored time on to its own. *)
Theorem deserialize_twice_renews_session
    (cfg : Config) (id : ObjectId) (w : World) (u : User) (t : Z) :
  (forall k : nat, (k < 4)%nat -> faults w (length (trace w) + k)%nat = None) ->
  users w !! id = Some u -> _id u = id ->
  lastRequestAt u = Some t ->
  clock w (reads w) - t <= session_timeout cfg ->
  clock w (S (S (reads w))) - clock w (S (reads w)) <= session_timeout cfg ->
  exists w1 w2,
    deserialize cfg id resolved w = (None, Some u, w1) /\
    deserialize cfg id resolved w1
      = (None, Some (set_lastRequestAt (Some (clock w (S (reads w)))) u), w2) /\
    users w2 !! id
      = Some (set_lastRequestAt (Some (clock w (S (S (S (reads w)))))) u).
Proof.
  intros Hfaults Hu Hid Hl Hs Hs'.
  assert (Hf0 : faults w (length (trace w)) = None)
    by (rewrite <- (Nat.add_0_r (length (trace w))); apply Hfaults; lia).
  assert (Hf1 : faults w (S (length (trace w))) = None)
    by (rewrite <- Nat.add_1_r; apply Hfaults; lia).
  assert (Hf2 : faults w (S (S (length (trace w)))) = None)
    by (replace (S (S (length (trace w)))) with (length (trace w) + 2)%nat by lia;
        apply Hfaults; lia).
  assert (Hf3 : faults w (S (S (S (length (trace w))))) = None)
    by (replace (S (S (S (length (trace w))))) with (length (trace w) + 3)%nat by lia;
        apply Hfaults; lia).
  set (now1 := clock w (S (reads w))).
  set (u1 := set_lastRequestAt (Some now1) u).
  set (w1 := set_users (alter (set_lastRequestAt (Some now1)) (_id u) (users w))
               (log (EvUpdate (_id u) now1) (before_write id w))).
  destruct (refreshed_world id w u now1) as (Ef & Ec & Er & Et & Eu).
  fold w1 in Ef, Ec, Er, Et, Eu.
  assert (Hu1 : users w1 !! id = Some u1).
  { rewrite Eu, Hid, lookup_alter_eq, Hu. reflexivity. }
  assert (E1 : deserialize cfg id resolved w = (None, Some u, w1)).
  { rewrite (deserialize_refresh _ _ _ _ _ _ Hf0 Hu Hl Hs), update_outcome, Hf1.
    reflexivity. }
  assert (E2 : deserialize cfg id resolved w1
               = (None, Some u1,
                  set_users
                    (alter (set_lastRequestAt (Some (clock w1 (S (reads w1))))) (_id u1)
                       (users w1))
                    (log (EvUpdate (_id u1) (clock w1 (S (reads w1))))
                       (before_write id w1)))).
  { rewrite (deserialize_refresh cfg id resolved w1 u1 now1).
    - rewrite update_outcome, Ef, Et, Hf3. reflexivity.
    - now rewrite Ef, Et.
    - exact Hu1.
    - reflexivity.
    - rewrite Ec, Er. exact Hs'. }
  exists w1. eexists. split; [exact E1 |]. split; [exact E2 |].
  cbn [users set_users]. change (_id u1) with (_id u).
  rewrite Hid, lookup_alter_eq, Hu1, Ec, Er. reflexivity.
Qed.

Lemma deserialize_twice_renews_session_witness :
  exists w1 w2,
    (* lastRequestAt 96000; requests at 100000 and 100002; timeout 5000 *)
    deserialize sample_config 7%N resolved (world_with (henry_seen 96000) no_fault)
      = (None, Some (henry_seen 96000), w1) /\
    deserialize sample_config 7%N resolved w1 = (None, Some (henry_seen 100001), w2) /\
    users w2 !! 7%N = Some (henry_seen 100003).
Proof.
  apply (deserialize_twice_renews_session sample_config 7%N
           (world_with (henry_seen 96000) no_fault) (henry_seen 96000) 96000).
  - intros k _. reflexivity.
  - vm_compute. reflexivity.
  - reflexivity.
  - reflexivity.
  - vm_compute. discriminate.
  - vm_compute. discriminate.
Defined.
